(** * jellyfish-crypto: the elliptic key pair and its DER signature codec

    A shallow embedding of [packages/jellyfish-crypto/src/elliptic.ts]
    together with the DER signature codec it imports from [./der].

    - A [Buffer] is a list of bytes.
    - A JavaScript [throw] (and the rejection of the promise an [async]
      method returns) is the [Throw] case of [outcome].
    - The curve library ['tiny-secp256k1'] is external: its three entry
      points are the fields of a record the key pair is parameterised by,
      and every call to it threads the state of the outside world.
    - Buffers are values. Nothing in [elliptic.ts] writes into a buffer,
      the two fields of the class are [readonly] and no method assigns
      them, so an object of the class is a record that never changes. *)

From Stdlib Require Import List Arith NArith Lia Bool.
From Stdlib Require Import Init.Byte.
From Stdlib Require Strings.Byte Strings.String.
Import ListNotations.

Set Implicit Arguments.

(** ** Buffers *)

Definition Buffer : Type := list byte.

(** [Buffer.alloc(n)]: [n] zero bytes. *)
Definition alloc (n : nat) : Buffer := repeat x00 n.

(** A number stored into one cell of a [Uint8Array] keeps its low 8 bits. *)
Definition byte_of_nat (n : nat) : byte :=
  match Byte.of_nat (n mod 256) with
  | Some b => b
  | None => x00
  end.

(** [(b & 0x80) !== 0] *)
Definition high_bit (b : byte) : bool :=
  negb (N.eqb (N.land (Byte.to_N b) 128) 0).

Definition is_zero (b : byte) : bool := Byte.eqb b x00.

(** The unsigned big-endian number a buffer denotes. *)
Definition be_to_N (b : Buffer) : N :=
  fold_left (fun acc x => (acc * 256 + Byte.to_N x)%N) b 0%N.

(** ** Errors and outcomes *)

(** Why [DERSignature.decode] refuses a buffer: one reason per step of the
    validation sequence. *)
Inductive der_reason : Type :=
| ExpectedSequence        (* first byte is not 0x30 *)
| InvalidSequenceLength   (* declared total length <> bytes remaining *)
| ExpectedInteger         (* 0x02 tag missing *)
| IntegerLengthTooLong    (* integer runs past the end of the buffer *)
| IntegerLengthZero       (* integer has no byte *)
| IntegerNegative         (* high bit set without the padding byte *)
| IntegerExcessivePadding (* leading 0x00 that the sign does not need *)
| TrailingBytes           (* bytes left after s *)
| IntegerTooLong.         (* more than 32 bytes once unpadded *)

Inductive error : Type :=
| InvalidLength
| MalformedSignature (reason : der_reason)
| InvalidPrivateKey             (* new Error('point at infinity') *)
| ExternalError (msg : String.string). (* whatever 'tiny-secp256k1' throws *)

Inductive outcome (A : Type) : Type :=
| Ok (a : A)
| Throw (e : error).
Arguments Ok {A} a.
Arguments Throw {A} e.

(** ** The DER signature codec *)

Module DERSignature.

(** Checked parsing: a value, or the reason for refusing the input. *)
Definition checked (A : Type) : Type := (der_reason + A)%type.

Definition cbind {A B : Type} (c : checked A) (k : A -> checked B)
  : checked B :=
  match c with
  | inl reason => inl reason
  | inr a => k a
  end.

Notation "x <- c ;; k" := (cbind c (fun x => k))
  (at level 61, c at next level, right associativity).
Notation "' p <- c ;; k" := (cbind c (fun x => let 'p := x in k))
  (at level 61, p pattern, c at next level, right associativity).

Definition require (ok : bool) (reason : der_reason) : checked unit :=
  if ok then inr tt else inl reason.

(** *** encode *)

(** Modelled from the spec: part of [./der]. Drop every leading 0x00: the
    minimal big-endian form of a scalar (empty for zero). *)
Fixpoint strip_zeros (x : Buffer) : Buffer :=
  match x with
  | b :: x' => if is_zero b then strip_zeros x' else x
  | [] => []
  end.

(** Modelled from the spec: part of [./der]. The bytes of a DER INTEGER
    holding the non-negative scalar [x]: its minimal form, after one 0x00
    if the first byte has its high bit set; a single 0x00 for zero. *)
Definition toDER (x : Buffer) : Buffer :=
  match strip_zeros x with
  | [] => alloc 1
  | b :: m => if high_bit b then x00 :: b :: m else b :: m
  end.

(** Modelled from the spec: part of [./der]. One [0x02 <len> <bytes>]
    block. *)
Definition integer (bytes : Buffer) : Buffer :=
  x02 :: byte_of_nat (length bytes) :: bytes.

(** Modelled from the spec: part of [./der]. [0x30 <total-len>] followed by
    the two integer blocks. *)
Definition sequence (r s : Buffer) : Buffer :=
  x30 :: byte_of_nat (length (integer r ++ integer s))
      :: integer r ++ integer s.

(** Modelled from the spec: the body of [DERSignature.encode] ([./der] is
    imported by [elliptic.ts] but is not among the sources). A 64-byte
    compact signature r ‖ s becomes [0x30 len 0x02 len r 0x02 len s];
    any other length is refused with [InvalidLength]. *)
Definition encode (signature : Buffer) : outcome Buffer :=
  if Nat.eqb (length signature) 64 then
    let r := toDER (firstn 32 signature) in
    let s := toDER (skipn 32 signature) in
    Ok (sequence r s)
  else Throw InvalidLength.

(** *** decode *)

(** Modelled from the spec: part of [./der]. Steps 1 and 2: the SEQUENCE
    tag, and a total length that is exactly
    the number of bytes that follow it. *)
Definition open_sequence (der : Buffer) : checked Buffer :=
  match der with
  | tag :: rest =>
      _ <- require (Byte.eqb tag x30) ExpectedSequence ;;
      match rest with
      | len :: body =>
          _ <- require (Nat.eqb (Byte.to_nat len) (length body))
                 InvalidSequenceLength ;;
          inr body
      | [] => inl InvalidSequenceLength
      end
  | [] => inl ExpectedSequence
  end.

(** Modelled from the spec: part of [./der]. The canonical form of the
    bytes of one INTEGER: at least one byte,
    not negative, and no leading 0x00 unless the next byte has its high
    bit set. *)
Definition check_integer (bytes : Buffer) : checked unit :=
  match bytes with
  | [] => inl IntegerLengthZero
  | b0 :: more =>
      _ <- require (negb (high_bit b0)) IntegerNegative ;;
      match more with
      | b1 :: _ =>
          require (negb (is_zero b0 && negb (high_bit b1)))
            IntegerExcessivePadding
      | [] => inr tt
      end
  end.

(** Modelled from the spec: part of [./der]. Steps 3 and 4: one
    [0x02 <len> <bytes>] block at the head of [buf];
    the result is its bytes and whatever follows the block. *)
Definition read_integer (buf : Buffer) : checked (Buffer * Buffer) :=
  match buf with
  | tag :: rest =>
      _ <- require (Byte.eqb tag x02) ExpectedInteger ;;
      match rest with
      | len :: rest' =>
          let n := Byte.to_nat len in
          _ <- require (negb (Nat.eqb n 0)) IntegerLengthZero ;;
          _ <- require (Nat.leb n (length rest')) IntegerLengthTooLong ;;
          let bytes := firstn n rest' in
          _ <- check_integer bytes ;;
          inr (bytes, skipn n rest')
      | [] => inl IntegerLengthTooLong
      end
  | [] => inl ExpectedInteger
  end.

(** Modelled from the spec: part of [./der]. Remove the
    sign-disambiguation byte. *)
Definition unpad (bytes : Buffer) : Buffer :=
  match bytes with
  | b :: more => if is_zero b then more else bytes
  | [] => []
  end.

(** Modelled from the spec: part of [./der]. Step 6: the unpadded integer
    must fit in 32 bytes and is left-padded with zeros to 32 bytes. *)
Definition fromDER (bytes : Buffer) : checked Buffer :=
  let x := unpad bytes in
  _ <- require (Nat.leb (length x) 32) IntegerTooLong ;;
  inr (alloc (32 - length x) ++ x).

(** Modelled from the spec: part of [./der]. The validation sequence, in
    the order of the specification: the sequence header, r, s right after
    r, nothing after s, and then the two scalars. *)
Definition decode_checked (der : Buffer) : checked Buffer :=
  body <- open_sequence der ;;
  '(r, rest) <- read_integer body ;;
  '(s, rest') <- read_integer rest ;;
  _ <- require (Nat.eqb (length rest') 0) TrailingBytes ;;
  r32 <- fromDER r ;;
  s32 <- fromDER s ;;
  inr (r32 ++ s32).

(** Modelled from the spec: the body of [DERSignature.decode] ([./der] is
    not among the sources). The six validation steps run in the order
    the specification lists them; the first one that fails raises
    [MalformedSignature] with its reason. *)
Definition decode (derSignature : Buffer) : outcome Buffer :=
  match decode_checked derSignature with
  | inr signature => Ok signature
  | inl reason => Throw (MalformedSignature reason)
  end.

End DERSignature.

(** ** Effects: calls that may throw and may touch the outside world *)

(** A computation over [world], the state of whatever lies outside the
    program and that the curve library may consult or change (an entropy
    source, a hardware signer). A thrown error keeps the world reached so
    far. *)
Definition M (world A : Type) : Type := world -> outcome A * world.

Section Monad.
Context {world : Type}.

Definition ret {A : Type} (a : A) : M world A := fun w => (Ok a, w).

Definition throw {A : Type} (e : error) : M world A := fun w => (Throw e, w).

(** A pure call of the program itself: returns or throws, world untouched. *)
Definition lift {A : Type} (o : outcome A) : M world A := fun w => (o, w).

Definition bind {A B : Type} (c : M world A) (k : A -> M world B)
  : M world B :=
  fun w =>
    match c w with
    | (Ok a, w') => k a w'
    | (Throw e, w') => (Throw e, w')
    end.
End Monad.

Declare Scope js_scope.
Delimit Scope js_scope with js.
Notation "'const' x := c ;; k" := (bind c (fun x => k))
  (at level 61, x name, c at next level, right associativity) : js_scope.

(** ** The external curve library, ['tiny-secp256k1'] *)

Module ecc.
(** What a call into the library comes back with: a value, or whatever
    the library threw. *)
Inductive returned (A : Type) : Type :=
| Returned (a : A)
| Threw (msg : String.string).
Arguments Returned {A} a.
Arguments Threw {A} msg.

Definition call (world A : Type) : Type := world -> returned A * world.

(** The three entry points [elliptic.ts] uses. Each runs outside the
    program. [pointFromScalar] returns [null] ([None]) or a point. *)
Record t (world : Type) : Type := {
  pointFromScalar : Buffer -> bool -> call world (option Buffer);
  sign : Buffer -> Buffer -> call world Buffer;
  verify : Buffer -> Buffer -> Buffer -> call world bool
}.
End ecc.

(** A call into the library, as a step of the program: what the library
    throws propagates as it is. *)
Definition external {world A : Type} (c : ecc.call world A) : M world A :=
  fun w =>
    match c w with
    | (ecc.Returned a, w') => (Ok a, w')
    | (ecc.Threw msg, w') => (Throw (ExternalError msg), w')
    end.

(** ** [interface EllipticPair] *)

Module EllipticPair.
(** An object with the four promise-returning methods. *)
Record t (world : Type) : Type := {
  publicKey : M world Buffer;
  privateKey : M world Buffer;
  sign : Buffer -> M world Buffer;
  verify : Buffer -> Buffer -> M world bool
}.
End EllipticPair.

(** ** [class SECP256K1 implements EllipticPair] *)

Module SECP256K1.

(** The two [private readonly] fields. *)
Record t : Type := {
  privKey : Buffer;
  pubKey : Buffer
}.

Section Class.
Context {world : Type} (lib : ecc.t world).
Local Open Scope js_scope.

(** [constructor (privKey: Buffer)] *)
Definition new (privKey : Buffer) : M world t :=
  const pubKey := external (ecc.pointFromScalar lib privKey true) ;;
  match pubKey with
  | None => throw InvalidPrivateKey
  | Some pubKey => ret {| privKey := privKey; pubKey := pubKey |}
  end.

Definition privateKey (this : t) : M world Buffer :=
  ret (privKey this).

Definition publicKey (this : t) : M world Buffer :=
  ret (pubKey this).

Definition sign (this : t) (hash : Buffer) : M world Buffer :=
  const signature := external (ecc.sign lib hash (privKey this)) ;;
  lift (DERSignature.encode signature).

Definition verify (this : t) (hash derSignature : Buffer) : M world bool :=
  const signature := lift (DERSignature.decode derSignature) ;;
  external (ecc.verify lib hash (pubKey this) signature).

(** The object seen through the interface it implements. *)
Definition as_EllipticPair (this : t) : EllipticPair.t world :=
  {| EllipticPair.publicKey := publicKey this;
     EllipticPair.privateKey := privateKey this;
     EllipticPair.sign := sign this;
     EllipticPair.verify := verify this |}.
End Class.

End SECP256K1.

Section Elliptic.
Context {world : Type} (lib : ecc.t world).
Local Open Scope js_scope.

Definition getEllipticPairFromPrivateKey (buffer : Buffer)
  : M world (EllipticPair.t world) :=
  const this := SECP256K1.new lib buffer ;;
  ret (SECP256K1.as_EllipticPair lib this).

(** The operations a holder of the key pair can ask for, and what each
    resolves with. *)
Inductive call : Type :=
| CallPublicKey
| CallPrivateKey
| CallSign (hash : Buffer)
| CallVerify (hash derSignature : Buffer).

Inductive value : Type :=
| VBuffer (b : Buffer)
| VBoolean (b : bool).

Definition settle {A : Type} (f : A -> value) (c : M world A)
  : M world value :=
  const a := c ;; ret (f a).

Definition invoke (pair : EllipticPair.t world) (c : call) : M world value :=
  match c with
  | CallPublicKey => settle VBuffer (EllipticPair.publicKey pair)
  | CallPrivateKey => settle VBuffer (EllipticPair.privateKey pair)
  | CallSign hash => settle VBuffer (EllipticPair.sign pair hash)
  | CallVerify hash derSignature =>
      settle VBoolean (EllipticPair.verify pair hash derSignature)
  end.

(** Any sequence of operations on one key pair, each awaited in turn; a
    rejected promise does not stop the caller from going on. The result
    is what each call settled with, and the world afterwards. *)
Fixpoint run (pair : EllipticPair.t world) (calls : list call) (w : world)
  : list (outcome value) * world :=
  match calls with
  | [] => ([], w)
  | c :: calls' =>
      let (o, w') := invoke pair c w in
      let (os, w'') := run pair calls' w' in
      (o :: os, w'')
  end.
End Elliptic.

(** ** A stand-in for the curve library

    Enough of a library to run the key pair on concrete inputs: the world
    is the number of calls made so far, the point of a scalar is the
    scalar behind a parity byte, the all-zero scalar has no point, and a
    signature is the hash followed by the scalar. *)
Module mock.
Definition fit32 (b : Buffer) : Buffer := firstn 32 (b ++ alloc 32).

Definition same (a b : Buffer) : bool :=
  if list_eq_dec Byte.byte_eq_dec a b then true else false.

Definition pointFromScalar (d : Buffer) (compressed : bool)
  : ecc.call nat (option Buffer) :=
  fun w =>
    (ecc.Returned
       (if forallb is_zero d then None
        else Some ((if compressed then x02 else x04) :: d)),
     S w).

Definition sign (hash d : Buffer) : ecc.call nat Buffer :=
  fun w => (ecc.Returned (fit32 hash ++ fit32 d), S w).

Definition verify (hash Q signature : Buffer) : ecc.call nat bool :=
  fun w =>
    (ecc.Returned (same signature (fit32 hash ++ fit32 (tl Q))), S w).

Definition lib : ecc.t nat :=
  {| ecc.pointFromScalar := pointFromScalar;
     ecc.sign := sign;
     ecc.verify := verify |}.

Definition key : Buffer := repeat x07 32.
Definition hash : Buffer := repeat xab 32.

(** The object [new SECP256K1(key)] builds on this library. *)
Definition this : SECP256K1.t :=
  {| SECP256K1.privKey := key; SECP256K1.pubKey := x02 :: key |}.

(** The DER bytes of the signature of [hash] under [key]. *)
Definition der : Buffer :=
  [x30; x45; x02; x21; x00] ++ hash ++ [x02; x20] ++ key.
End mock.

(** A signer is deterministic when what it returns for a hash and a key
    does not depend on the state of the world it is called in. *)
Definition deterministic_signer {world : Type} (lib : ecc.t world) : Prop :=
  forall (hash d : Buffer) (w1 w2 : world),
    fst (ecc.sign lib hash d w1) = fst (ecc.sign lib hash d w2).

(** The same for the library's [verify] and [pointFromScalar]. *)
Definition deterministic_verifier {world : Type} (lib : ecc.t world) : Prop :=
  forall (hash Q signature : Buffer) (w1 w2 : world),
    fst (ecc.verify lib hash Q signature w1)
    = fst (ecc.verify lib hash Q signature w2).

Definition deterministic_derivation {world : Type} (lib : ecc.t world) : Prop :=
  forall (d : Buffer) (compressed : bool) (w1 w2 : world),
    fst (ecc.pointFromScalar lib d compressed w1)
    = fst (ecc.pointFromScalar lib d compressed w2).

(** The library is consistent when its [verify] accepts, under the
    compressed point it derives for a key, every signature its [sign]
    returns for that key, whatever the worlds the three calls run in. *)
Definition consistent_library {world : Type} (lib : ecc.t world) : Prop :=
  forall (d Q hash signature : Buffer) (w0 w0' w1 w1' w2 : world),
    ecc.pointFromScalar lib d true w0 = (ecc.Returned (Some Q), w0') ->
    ecc.sign lib hash d w1 = (ecc.Returned signature, w1') ->
    exists w2', ecc.verify lib hash Q signature w2 = (ecc.Returned true, w2').

(** What a call must settle with on a key pair whose public key is [Q]
    and whose private key is [d]: the two getters are pinned down, [sign]
    and [verify] are left free. *)
Definition answers (Q d : Buffer) (c : call) (o : outcome value) : Prop :=
  match c with
  | CallPublicKey => o = Ok (VBuffer Q)
  | CallPrivateKey => o = Ok (VBuffer d)
  | CallSign _ | CallVerify _ _ => True
  end.

(** ** The vocabulary of the statements about the codec *)

(** [m] is the buffer [x] without its leading 0x00 bytes. *)
Definition minimal_form (x m : Buffer) : Prop :=
  (exists k, x = alloc k ++ m) /\ hd_error m <> Some x00.

(** [bytes] is what a DER INTEGER holds for the scalar [x]: the minimal
    form, after one 0x00 when its first byte has the high bit set; the
    single byte 0x00 for zero. *)
Definition der_integer_of (x bytes : Buffer) : Prop :=
  exists m, minimal_form x m /\
    match m with
    | [] => bytes = [x00]
    | b :: _ => bytes = (if high_bit b then [x00] else []) ++ m
    end.

(** What makes the bytes of an INTEGER unacceptable. *)
Inductive defect : Buffer -> Prop :=
| defect_empty : defect []
| defect_negative b more :
    high_bit b = true -> defect (b :: more)
| defect_padding b more :
    high_bit b = false -> defect (x00 :: b :: more)
| defect_oversized bytes :
    32 < length (DERSignature.unpad bytes) -> defect bytes.

(** The strictly canonical encoding of the integers [r] and [s]. *)
Definition strict_der (der r s : Buffer) : Prop :=
  der = DERSignature.sequence r s /\ ~ defect r /\ ~ defect s.

(** The 32-byte scalar an INTEGER stands for. *)
Definition scalar32 (bytes : Buffer) : Buffer :=
  alloc (32 - length (DERSignature.unpad bytes)) ++ DERSignature.unpad bytes.

(** The ways a buffer can break the validation sequence of
    [DERSignature.decode]. *)
Inductive violation : Buffer -> Prop :=
| not_a_sequence der :
    hd_error der <> Some x30 -> violation der
| wrong_total_length tag len body :
    Byte.to_nat len <> length body -> violation (tag :: len :: body)
| r_tag_missing tag len body :
    hd_error body <> Some x02 -> violation (tag :: len :: body)
| r_defect tag len r rest :
    length r < 256 -> defect r ->
    violation (tag :: len :: DERSignature.integer r ++ rest)
| s_tag_missing tag len r rest :
    length r < 256 -> hd_error rest <> Some x02 ->
    violation (tag :: len :: DERSignature.integer r ++ rest)
| s_defect tag len r s rest :
    length r < 256 -> length s < 256 -> defect s ->
    violation
      (tag :: len :: DERSignature.integer r ++ DERSignature.integer s ++ rest)
| bytes_after_s tag len r s rest :
    length r < 256 -> length s < 256 -> rest <> [] ->
    violation
      (tag :: len :: DERSignature.integer r ++ DERSignature.integer s ++ rest).

(** The order n of the secp256k1 group (SEC 2, section 2.4.1). *)
Definition secp256k1_n : N :=
  0xFFFFFFFFFFFFFFFFFFFFFFFFFFFFFFFEBAAEDCE6AF48A03BBFD25E8CD0364141%N.

(** A compact signature with r = 1 and s = n - 1, the largest scalar of
    the group and so above half its order, and the DER bytes for it. *)
Definition high_s : Buffer :=
  [xff; xff; xff; xff; xff; xff; xff; xff;
   xff; xff; xff; xff; xff; xff; xff; xfe;
   xba; xae; xdc; xe6; xaf; x48; xa0; x3b;
   xbf; xd2; x5e; x8c; xd0; x36; x41; x40].

Definition high_s_signature : Buffer := alloc 31 ++ [x01] ++ high_s.

Definition high_s_der : Buffer :=
  [x30; x26; x02; x01; x01; x02; x21; x00] ++ high_s.

(** * Properties *)

(** ** Bytes and buffers *)

Lemma to_nat_byte_of_nat (n : nat) :
  n < 256 -> Byte.to_nat (byte_of_nat n) = n.
Proof.
  intros Hn. unfold byte_of_nat.
  rewrite Nat.mod_small by exact Hn.
  destruct (Byte.of_nat n) as [b|] eqn:E.
  - now apply Byte.to_of_nat.
  - apply Byte.of_nat_None_iff in E. lia.
Qed.

Lemma byte_of_nat_to_nat (b : byte) : byte_of_nat (Byte.to_nat b) = b.
Proof.
  unfold byte_of_nat.
  pose proof (Byte.to_nat_bounded b) as Hb.
  rewrite Nat.mod_small by lia.
  now rewrite Byte.of_to_nat.
Qed.

Lemma byte_of_nat_inj (n m : nat) :
  n < 256 -> m < 256 -> byte_of_nat n = byte_of_nat m -> n = m.
Proof.
  intros Hn Hm E.
  rewrite <- (to_nat_byte_of_nat Hn), <- (to_nat_byte_of_nat Hm).
  now rewrite E.
Qed.

Lemma is_zero_true (b : byte) : is_zero b = true <-> b = x00.
Proof.
  unfold is_zero. split.
  - apply Byte.byte_dec_bl.
  - apply Byte.byte_dec_lb.
Qed.

Lemma is_zero_false (b : byte) : is_zero b = false <-> b <> x00.
Proof.
  rewrite <- is_zero_true. destruct (is_zero b); split; congruence.
Qed.

Lemma length_alloc (n : nat) : length (alloc n) = n.
Proof. apply repeat_length. Qed.

Lemma alloc_inj_app (k k' : nat) (x : Buffer) :
  length (alloc k ++ x) = length (alloc k' ++ x) -> alloc k = alloc k'.
Proof.
  rewrite !length_app, !length_alloc. intros E.
  replace k' with k by lia. reflexivity.
Qed.

(** ** Encoding one scalar *)

Lemma strip_zeros_minimal (x : Buffer) :
  minimal_form x (DERSignature.strip_zeros x).
Proof.
  induction x as [|b x [[k IHk] IHh]]; simpl.
  - split; [now exists 0 | discriminate].
  - destruct (is_zero b) eqn:Eb.
    + apply is_zero_true in Eb. subst b. split; [|exact IHh].
      exists (S k). change (alloc (S k)) with (x00 :: alloc k).
      simpl. now f_equal.
    + apply is_zero_false in Eb. split.
      * now exists 0.
      * simpl. congruence.
Qed.

Lemma minimal_form_unique (x m m' : Buffer) :
  minimal_form x m -> minimal_form x m' -> m = m'.
Proof.
  intros [[k Hk] Hm] [[k' Hk'] Hm']. subst x. revert k' Hk'.
  induction k as [|k IH]; intros [|k'] E; simpl in E.
  - exact E.
  - subst m. simpl in Hm. congruence.
  - subst m'. simpl in Hm'. congruence.
  - injection E as E. now apply IH with k'.
Qed.

Lemma toDER_der_integer_of (x : Buffer) :
  der_integer_of x (DERSignature.toDER x).
Proof.
  exists (DERSignature.strip_zeros x). split; [apply strip_zeros_minimal|].
  unfold DERSignature.toDER.
  destruct (DERSignature.strip_zeros x) as [|b m]; [reflexivity|].
  now destruct (high_bit b).
Qed.

Lemma high_bit_x00 : high_bit x00 = false.
Proof. reflexivity. Qed.

Lemma der_integer_of_length (x bytes : Buffer) :
  der_integer_of x bytes -> 1 <= length bytes <= S (length x).
Proof.
  intros (m & [[k Hk] _] & Hb).
  assert (length m <= length x)
    by (subst x; rewrite length_app; lia).
  destruct m as [|b m]; subst bytes; simpl in *; [lia|].
  destruct (high_bit b); simpl; lia.
Qed.

Lemma der_integer_of_unpad (x bytes : Buffer) :
  der_integer_of x bytes -> minimal_form x (DERSignature.unpad bytes).
Proof.
  intros (m & Hm & Hb).
  destruct m as [|b m]; subst bytes; [exact Hm|].
  destruct (high_bit b) eqn:Eh; simpl; [exact Hm|].
  destruct (is_zero b) eqn:Eb; [|exact Hm].
  apply is_zero_true in Eb. subst b.
  destruct Hm as [_ Hm]. simpl in Hm. congruence.
Qed.

Lemma der_integer_of_no_defect (x bytes : Buffer) :
  length x <= 32 -> der_integer_of x bytes -> ~ defect bytes.
Proof.
  intros Hx Hd Hdef.
  assert (Hfit : length (DERSignature.unpad bytes) <= 32).
  { pose proof (der_integer_of_unpad Hd) as [[k Hk] _].
    rewrite Hk, length_app in Hx. lia. }
  destruct Hd as (m & Hm & Hb).
  inversion Hdef as [E | b more Hh E | b more Hh E | bytes' Hlen E]; subst.
  - destruct m as [|b m]; [discriminate|].
    destruct (high_bit b); discriminate.
  - destruct m as [|b' m].
    + injection Hb as -> _. discriminate.
    + destruct (high_bit b') eqn:Eh; simpl in Hb; injection Hb as -> _;
        [discriminate | congruence].
  - destruct m as [|b' m]; [discriminate|].
    destruct (high_bit b') eqn:Eh; simpl in Hb.
    + injection Hb as -> _. congruence.
    + injection Hb as <- _. destruct Hm as [_ Hm]. simpl in Hm. congruence.
  - lia.
Qed.

Lemma scalar32_der_integer_of (x bytes : Buffer) :
  length x = 32 -> der_integer_of x bytes -> scalar32 bytes = x.
Proof.
  intros Hx Hd. apply der_integer_of_unpad in Hd as [[k Hk] _].
  unfold scalar32. rewrite Hk in Hx |- *.
  rewrite length_app, length_alloc in Hx.
  do 2 f_equal. lia.
Qed.

(** ** The number a buffer denotes *)

Lemma be_to_N_cons_x00 (b : Buffer) : be_to_N (x00 :: b) = be_to_N b.
Proof. reflexivity. Qed.

Lemma be_to_N_alloc_app (k : nat) (b : Buffer) :
  be_to_N (alloc k ++ b) = be_to_N b.
Proof.
  induction k as [|k IH]; [reflexivity|].
  change (alloc (S k) ++ b) with (x00 :: (alloc k ++ b)).
  now rewrite be_to_N_cons_x00.
Qed.

Lemma be_to_N_unpad (bytes : Buffer) :
  be_to_N (DERSignature.unpad bytes) = be_to_N bytes.
Proof.
  destruct bytes as [|b more]; [reflexivity|]. simpl.
  destruct (is_zero b) eqn:Eb; [|reflexivity].
  apply is_zero_true in Eb. now subst b.
Qed.

(** Padding to 32 bytes keeps the number. *)
Lemma be_to_N_scalar32 (bytes : Buffer) :
  be_to_N (scalar32 bytes) = be_to_N bytes.
Proof.
  unfold scalar32. now rewrite be_to_N_alloc_app, be_to_N_unpad.
Qed.

(** The bytes of the INTEGER denote the scalar they were made from. *)
Lemma der_integer_of_value (x bytes : Buffer) :
  der_integer_of x bytes -> be_to_N bytes = be_to_N x.
Proof.
  intros Hd. pose proof (der_integer_of_unpad Hd) as [[k Hk] _].
  now rewrite Hk, be_to_N_alloc_app, be_to_N_unpad.
Qed.

(** ** Decoding: each validation step *)

Lemma cbind_inr {A B : Type} (c : DERSignature.checked A)
    (k : A -> DERSignature.checked B) (b : B) :
  DERSignature.cbind c k = inr b -> exists a, c = inr a /\ k a = inr b.
Proof.
  destruct c as [reason|a]; simpl; [discriminate|]. intros E. now exists a.
Qed.

Lemma require_inr (ok : bool) (reason : der_reason) (u : unit) :
  DERSignature.require ok reason = inr u -> ok = true.
Proof. destruct ok; [reflexivity | discriminate]. Qed.

(** Peel one step off a successful run of the decoder. *)
Tactic Notation "step" hyp(H) "as" simple_intropattern(a) ident(Hc) :=
  apply cbind_inr in H as (a & Hc & H);
  try (apply require_inr in Hc).

Lemma check_integer_no_defect (bytes : Buffer) :
  length (DERSignature.unpad bytes) <= 32 ->
  DERSignature.check_integer bytes = inr tt <-> ~ defect bytes.
Proof.
  intros Hfit. split.
  - intros Hc Hdef.
    inversion Hdef as [E | b more Hh E | b more Hh E | bytes' Hlen E];
      subst; simpl in *; try lia; try discriminate.
    + rewrite Hh in Hc. discriminate.
    + rewrite Hh in Hc. discriminate.
  - intros Hdef. destruct bytes as [|b0 more]; simpl.
    + destruct Hdef. constructor.
    + destruct (high_bit b0) eqn:E0; simpl.
      * destruct Hdef. now constructor.
      * destruct more as [|b1 more]; [reflexivity|].
        destruct (is_zero b0) eqn:Ez; [|reflexivity].
        apply is_zero_true in Ez. subst b0.
        destruct (high_bit b1) eqn:E1; [reflexivity|].
        destruct Hdef. now constructor.
Qed.

Lemma fromDER_inr (bytes x : Buffer) :
  DERSignature.fromDER bytes = inr x <->
  length (DERSignature.unpad bytes) <= 32 /\ x = scalar32 bytes.
Proof.
  unfold DERSignature.fromDER, scalar32.
  destruct (Nat.leb_spec (length (DERSignature.unpad bytes)) 32) as [Hle|Hgt];
    simpl; split.
  - intros E. injection E as <-. now split.
  - intros [_ ->]. reflexivity.
  - discriminate.
  - intros [Hle _]. lia.
Qed.

Lemma no_defect_length (bytes : Buffer) :
  ~ defect bytes -> 1 <= length bytes <= 33.
Proof.
  intros Hdef.
  assert (length (DERSignature.unpad bytes) <= 32) as Hfit.
  { destruct (Nat.leb_spec (length (DERSignature.unpad bytes)) 32);
      [assumption|]. destruct Hdef. now constructor. }
  destruct bytes as [|b more]; simpl in *.
  - destruct Hdef. constructor.
  - destruct (is_zero b); simpl in Hfit; lia.
Qed.

Lemma no_defect_fits (bytes : Buffer) :
  ~ defect bytes -> length (DERSignature.unpad bytes) <= 32.
Proof.
  intros Hdef.
  destruct (Nat.leb_spec (length (DERSignature.unpad bytes)) 32);
    [assumption|]. destruct Hdef. now constructor.
Qed.

Lemma read_integer_sound (buf bytes rest : Buffer) :
  DERSignature.read_integer buf = inr (bytes, rest) ->
  buf = DERSignature.integer bytes ++ rest
  /\ length bytes < 256
  /\ DERSignature.check_integer bytes = inr tt.
Proof.
  destruct buf as [|tag [|len rest']]; simpl; try discriminate.
  - intros H. step H as ? Htag. discriminate.
  - intros H. step H as ? Htag. step H as ? Hnz. step H as ? Hle.
    step H as [] Hc. injection H as <- <-.
    apply Byte.byte_dec_bl in Htag. apply Nat.leb_le in Hle.
    pose proof (Byte.to_nat_bounded len) as Hb.
    assert (length (firstn (Byte.to_nat len) rest') = Byte.to_nat len) as Hl
      by (rewrite length_firstn; lia).
    repeat split.
    + unfold DERSignature.integer. simpl.
      now rewrite Hl, byte_of_nat_to_nat, firstn_skipn, Htag.
    + lia.
    + exact Hc.
Qed.

Lemma read_integer_integer (bytes rest : Buffer) :
  length bytes < 256 ->
  DERSignature.check_integer bytes = inr tt ->
  DERSignature.read_integer (DERSignature.integer bytes ++ rest)
  = inr (bytes, rest).
Proof.
  intros Hlen Hc. unfold DERSignature.integer, DERSignature.read_integer.
  simpl. rewrite (to_nat_byte_of_nat Hlen).
  destruct bytes as [|b more]; [discriminate|].
  replace (Nat.eqb (length (b :: more)) 0) with false by reflexivity.
  replace (Nat.leb (length (b :: more)) (length ((b :: more) ++ rest)))
    with true
    by (symmetry; apply Nat.leb_le; rewrite length_app; lia).
  cbn [negb DERSignature.require DERSignature.cbind].
  rewrite firstn_app, Nat.sub_diag, firstn_all, firstn_O, app_nil_r.
  rewrite Hc. cbn [DERSignature.cbind].
  rewrite skipn_app, Nat.sub_diag, skipn_all. reflexivity.
Qed.

Lemma open_sequence_sound (der body : Buffer) :
  DERSignature.open_sequence der = inr body ->
  der = x30 :: byte_of_nat (length body) :: body /\ length body < 256.
Proof.
  destruct der as [|tag [|len body']]; simpl; try discriminate.
  - intros H. step H as ? Htag. discriminate.
  - intros H. step H as ? Htag. step H as ? Hlen. injection H as <-.
    apply Byte.byte_dec_bl in Htag. apply Nat.eqb_eq in Hlen.
    pose proof (Byte.to_nat_bounded len). split; [|lia].
    now rewrite <- Hlen, byte_of_nat_to_nat, Htag.
Qed.

Lemma open_sequence_sequence (body : Buffer) :
  length body < 256 ->
  DERSignature.open_sequence (x30 :: byte_of_nat (length body) :: body)
  = inr body.
Proof.
  intros Hlen. simpl. rewrite (to_nat_byte_of_nat Hlen), Nat.eqb_refl.
  reflexivity.
Qed.

(** ** Decoding: the whole sequence *)

Lemma length_integer (bytes : Buffer) :
  length (DERSignature.integer bytes) = 2 + length bytes.
Proof. reflexivity. Qed.

Lemma integer_app_inj (r r' rest rest' : Buffer) :
  length r < 256 -> length r' < 256 ->
  DERSignature.integer r ++ rest = DERSignature.integer r' ++ rest' ->
  r = r' /\ rest = rest'.
Proof.
  intros Hr Hr' E. unfold DERSignature.integer in E. simpl in E.
  injection E as El E. apply byte_of_nat_inj in El; [|assumption..].
  revert r' Hr' El E. induction r as [|b r IH]; intros [|b' r'] Hr' El E;
    simpl in *; try discriminate.
  - now split.
  - injection E as <- E. injection El as El.
    destruct (IH ltac:(simpl in Hr; lia) r' ltac:(lia) El E) as [<- <-].
    now split.
Qed.

Lemma decode_checked_sound (der signature : Buffer) :
  DERSignature.decode_checked der = inr signature ->
  exists r s, strict_der der r s /\ signature = scalar32 r ++ scalar32 s.
Proof.
  unfold DERSignature.decode_checked. intros H.
  step H as body Hbody.
  destruct (open_sequence_sound _ Hbody) as [-> _].
  step H as [r rest] Hr.
  destruct (read_integer_sound _ Hr) as (-> & _ & Hcr).
  step H as [s rest'] Hs.
  destruct (read_integer_sound _ Hs) as (-> & _ & Hcs).
  step H as ? Hend. apply Nat.eqb_eq, length_zero_iff_nil in Hend.
  subst rest'.
  step H as r32 Hfr. apply fromDER_inr in Hfr as [Hfr ->].
  step H as s32 Hfs. apply fromDER_inr in Hfs as [Hfs ->].
  injection H as <-.
  exists r, s. split; [|reflexivity].
  rewrite app_nil_r. repeat split.
  - now apply check_integer_no_defect.
  - now apply check_integer_no_defect.
Qed.

Lemma decode_checked_strict (der r s : Buffer) :
  strict_der der r s ->
  DERSignature.decode_checked der = inr (scalar32 r ++ scalar32 s).
Proof.
  intros (-> & Hr & Hs).
  pose proof (no_defect_length Hr) as Hlr.
  pose proof (no_defect_length Hs) as Hls.
  pose proof (no_defect_fits Hr) as Hfr.
  pose proof (no_defect_fits Hs) as Hfs.
  unfold DERSignature.decode_checked, DERSignature.sequence.
  rewrite open_sequence_sequence
    by (rewrite length_app, !length_integer; lia).
  cbn [DERSignature.cbind].
  rewrite read_integer_integer
    by (try apply check_integer_no_defect; solve [assumption | lia]).
  cbn [DERSignature.cbind].
  rewrite <- (app_nil_r (DERSignature.integer s)).
  rewrite read_integer_integer
    by (try apply check_integer_no_defect; solve [assumption | lia]).
  cbn [DERSignature.cbind length Nat.eqb DERSignature.require].
  rewrite (proj2 (fromDER_inr r _) (conj Hfr eq_refl)).
  rewrite (proj2 (fromDER_inr s _) (conj Hfs eq_refl)).
  reflexivity.
Qed.

Lemma sequence_inv (tag len : byte) (body r s : Buffer) :
  tag :: len :: body = DERSignature.sequence r s ->
  tag = x30 /\ len = byte_of_nat (length body)
  /\ body = DERSignature.integer r ++ DERSignature.integer s.
Proof.
  unfold DERSignature.sequence. intros E. injection E as -> -> ->.
  repeat split.
Qed.

Lemma strict_der_no_violation (der r s : Buffer) :
  strict_der der r s -> ~ violation der.
Proof.
  intros (E & Hr & Hs) Hv.
  pose proof (no_defect_length Hr) as Hlr.
  pose proof (no_defect_length Hs) as Hls.
  destruct Hv as
    [ der Htag
    | tag len body Hlen
    | tag len body Htag
    | tag len r' rest Hr' Hdef
    | tag len r' rest Hr' Htag
    | tag len r' s' rest Hr' Hs' Hdef
    | tag len r' s' rest Hr' Hs' Hrest ];
    [ subst der | apply sequence_inv in E as (-> & -> & E).. ].
  - simpl in Htag. congruence.
  - apply Hlen, to_nat_byte_of_nat. subst body.
    rewrite length_app, !length_integer. lia.
  - subst body. simpl in Htag. congruence.
  - apply integer_app_inj in E as [-> _]; [contradiction | lia..].
  - apply integer_app_inj in E as [-> ->]; [|lia..].
    simpl in Htag. congruence.
  - apply integer_app_inj in E as [-> E]; [|lia..].
    rewrite <- (app_nil_r (DERSignature.integer s)) in E.
    apply integer_app_inj in E as [-> _]; [contradiction | lia..].
  - apply integer_app_inj in E as [-> E]; [|lia..].
    rewrite <- (app_nil_r (DERSignature.integer s)) in E.
    apply integer_app_inj in E as [_ ->]; [congruence | lia..].
Qed.

Lemma der_integer_of_unique (x bytes bytes' : Buffer) :
  der_integer_of x bytes -> der_integer_of x bytes' -> bytes = bytes'.
Proof.
  intros (m & Hm & Hb) (m' & Hm' & Hb').
  rewrite <- (minimal_form_unique Hm Hm') in Hb'.
  destruct m; congruence.
Qed.

Lemma encode_sequence (signature : Buffer) :
  length signature = 64 ->
  DERSignature.encode signature
  = Ok (DERSignature.sequence
          (DERSignature.toDER (firstn 32 signature))
          (DERSignature.toDER (skipn 32 signature))).
Proof.
  intros Hlen. unfold DERSignature.encode. now rewrite Hlen.
Qed.

Lemma decode_Ok (der signature : Buffer) :
  DERSignature.decode der = Ok signature <->
  DERSignature.decode_checked der = inr signature.
Proof.
  unfold DERSignature.decode.
  destruct (DERSignature.decode_checked der); split; congruence.
Qed.

(** ** The codec: the statements of the specification *)

(** C1. Round trip: for every 64-byte compact signature (32-byte r and then
    32-byte s, any bytes at all, so any 0 <= r, s < 2^256), [encode]
    returns DER bytes, and [decode] of those bytes returns the signature
    again. *)
Theorem decode_encode (signature : Buffer) :
  length signature = 64 ->
  exists der,
    DERSignature.encode signature = Ok der
    /\ DERSignature.decode der = Ok signature.
Proof.
  intros Hlen.
  set (r := DERSignature.toDER (firstn 32 signature)).
  set (s := DERSignature.toDER (skipn 32 signature)).
  assert (Hr : length (firstn 32 signature) = 32)
    by (rewrite length_firstn; lia).
  assert (Hs : length (skipn 32 signature) = 32)
    by (rewrite length_skipn; lia).
  exists (DERSignature.sequence r s). split.
  - now apply encode_sequence.
  - apply decode_Ok.
    rewrite (@decode_checked_strict _ r s).
    + unfold r, s.
      rewrite (scalar32_der_integer_of Hr (toDER_der_integer_of _)).
      rewrite (scalar32_der_integer_of Hs (toDER_der_integer_of _)).
      now rewrite firstn_skipn.
    + repeat split.
      * apply der_integer_of_no_defect with (firstn 32 signature);
          [lia | apply toDER_der_integer_of].
      * apply der_integer_of_no_defect with (skipn 32 signature);
          [lia | apply toDER_der_integer_of].
Qed.

Lemma decode_encode_witness :
  length high_s_signature = 64
  /\ exists der,
       DERSignature.encode high_s_signature = Ok der
       /\ DERSignature.decode der = Ok high_s_signature.
Proof.
  split; [reflexivity | apply (@decode_encode high_s_signature); reflexivity].
Defined.

(** C2. [decode] returns a compact signature exactly on the strictly
    canonical encodings [0x30 len 0x02 len r 0x02 len s] whose integers
    have no defect (not empty, not negative, no needless leading 0x00, at
    most 32 bytes once unpadded); every violation of the validation
    sequence is refused, and whatever is refused is refused with
    [MalformedSignature]. *)
Theorem decode_strict (der : Buffer) :
  (forall signature,
      DERSignature.decode der = Ok signature <->
      exists r s, strict_der der r s /\ signature = scalar32 r ++ scalar32 s)
  /\ (violation der ->
      exists reason,
        DERSignature.decode der = Throw (MalformedSignature reason))
  /\ (forall e,
      DERSignature.decode der = Throw e ->
      exists reason, e = MalformedSignature reason).
Proof.
  split; [|split].
  - intros signature. rewrite decode_Ok. split.
    + apply decode_checked_sound.
    + intros (r & s & Hstrict & ->). now apply decode_checked_strict.
  - intros Hv. unfold DERSignature.decode.
    destruct (DERSignature.decode_checked der) as [reason|signature] eqn:E.
    + now exists reason.
    + apply decode_checked_sound in E as (r & s & Hstrict & _).
      now destruct (strict_der_no_violation Hstrict).
  - intros e. unfold DERSignature.decode.
    destruct (DERSignature.decode_checked der) as [reason|signature];
      [|discriminate].
    intros E. injection E as <-. now exists reason.
Qed.

(** The specification's example: r-bytes 0x00 0x01, where 0x01 alone
    would do. *)
Lemma decode_strict_witness :
  exists reason,
    DERSignature.decode [x30; x07; x02; x02; x00; x01; x02; x01; x01]
    = Throw (MalformedSignature reason).
Proof.
  apply (proj1 (proj2 (decode_strict _))).
  apply (@r_defect x30 x07 [x00; x01] [x02; x01; x01]).
  - simpl. lia.
  - now apply defect_padding.
Defined.

(** One rejected buffer for each step of the validation sequence. *)
Example decode_rejects :
  map DERSignature.decode
    [ [x31; x06; x02; x01; x01; x02; x01; x01];
      [x30; x07; x02; x01; x01; x02; x01; x01];
      [x30; x06; x03; x01; x01; x02; x01; x01];
      [x30; x05; x02; x00; x02; x01; x01];
      [x30; x07; x02; x02; x00; x01; x02; x01; x01];
      [x30; x06; x02; x01; x80; x02; x01; x01];
      [x30; x06; x02; x01; x01; x03; x01; x01];
      [x30; x07; x02; x01; x01; x02; x01; x01; x00];
      [x30; x26; x02; x01; x01; x02; x21] ++ repeat x01 33 ]
  = map (fun reason => Throw (MalformedSignature reason))
      [ ExpectedSequence; InvalidSequenceLength; ExpectedInteger;
        IntegerLengthZero; IntegerExcessivePadding; IntegerNegative;
        ExpectedInteger; TrailingBytes; IntegerTooLong ].
Proof. reflexivity. Qed.

(** C3. On a 64-byte input [encode] emits 0x30, the total-length byte, the
    block of r and then the block of s; each block is 0x02, a length byte
    and the bytes of the integer: the minimal big-endian form of the
    scalar, after exactly one 0x00 when (and only when) its first byte has
    the high bit set, and the single byte 0x00 for a zero scalar. The bytes
    of each integer denote the number of its scalar, and the three length
    bytes are the true lengths (at most 33, 33 and 70). *)
Theorem encode_layout (signature : Buffer) :
  length signature = 64 ->
  exists r s,
    DERSignature.encode signature
    = Ok (x30 :: byte_of_nat (4 + length r + length s)
              :: (x02 :: byte_of_nat (length r) :: r)
              ++ (x02 :: byte_of_nat (length s) :: s))
    /\ der_integer_of (firstn 32 signature) r
    /\ der_integer_of (skipn 32 signature) s
    /\ be_to_N r = be_to_N (firstn 32 signature)
    /\ be_to_N s = be_to_N (skipn 32 signature)
    /\ Byte.to_nat (byte_of_nat (length r)) = length r
    /\ Byte.to_nat (byte_of_nat (length s)) = length s
    /\ Byte.to_nat (byte_of_nat (4 + length r + length s))
       = 4 + length r + length s.
Proof.
  intros Hlen.
  pose proof (toDER_der_integer_of (firstn 32 signature)) as Hr.
  pose proof (toDER_der_integer_of (skipn 32 signature)) as Hs.
  pose proof (der_integer_of_length Hr) as Hlr.
  pose proof (der_integer_of_length Hs) as Hls.
  rewrite length_firstn in Hlr. rewrite length_skipn in Hls.
  exists (DERSignature.toDER (firstn 32 signature)),
         (DERSignature.toDER (skipn 32 signature)).
  split;
    [|repeat split; try assumption;
      solve [now apply der_integer_of_value | apply to_nat_byte_of_nat; lia]].
  rewrite (encode_sequence signature Hlen). unfold DERSignature.sequence.
  rewrite length_app, !length_integer.
  set (r := DERSignature.toDER (firstn 32 signature)).
  set (s := DERSignature.toDER (skipn 32 signature)).
  replace (2 + length r + (2 + length s)) with (4 + length r + length s)
    by lia.
  reflexivity.
Qed.

(** r = 0 and s = 0xFF...FF. *)
Lemma encode_layout_witness :
  length (alloc 32 ++ repeat xff 32) = 64
  /\ exists r s,
       DERSignature.encode (alloc 32 ++ repeat xff 32)
       = Ok (x30 :: byte_of_nat (4 + length r + length s)
                 :: (x02 :: byte_of_nat (length r) :: r)
                 ++ (x02 :: byte_of_nat (length s) :: s))
       /\ der_integer_of (firstn 32 (alloc 32 ++ repeat xff 32)) r
       /\ der_integer_of (skipn 32 (alloc 32 ++ repeat xff 32)) s
       /\ be_to_N r = be_to_N (firstn 32 (alloc 32 ++ repeat xff 32))
       /\ be_to_N s = be_to_N (skipn 32 (alloc 32 ++ repeat xff 32))
       /\ Byte.to_nat (byte_of_nat (length r)) = length r
       /\ Byte.to_nat (byte_of_nat (length s)) = length s
       /\ Byte.to_nat (byte_of_nat (4 + length r + length s))
          = 4 + length r + length s.
Proof.
  split; [reflexivity|].
  apply (@encode_layout (alloc 32 ++ repeat xff 32)). reflexivity.
Defined.

(** Zero scalar: a single 0x00. Sign bit: 33 bytes, the first one 0x00. *)
Example encode_zero_and_sign_bit :
  DERSignature.encode (alloc 32 ++ repeat xff 32)
  = Ok ([x30; x26; x02; x01; x00; x02; x21; x00] ++ repeat xff 32).
Proof. reflexivity. Qed.

(** C5. No low-S rule in [decode]: the strictly canonical DER signature
    with r = 1 and s = n - 1 (above half the group order n) is accepted,
    and what comes back is the compact form with that very s, the one
    [encode] maps to the same DER bytes. *)
Theorem decode_accepts_high_s :
  exists r s,
    strict_der high_s_der r s
    /\ be_to_N s = (secp256k1_n - 1)%N
    /\ (secp256k1_n / 2 < be_to_N s < secp256k1_n)%N
    /\ DERSignature.decode high_s_der = Ok high_s_signature
    /\ length high_s_signature = 64
    /\ be_to_N (skipn 32 high_s_signature) = be_to_N s
    /\ DERSignature.encode high_s_signature = Ok high_s_der.
Proof.
  exists [x01], (x00 :: high_s).
  split; [|split; [|split; [|split; [|split; [|split]]]]].
  - split; [reflexivity|].
    split; apply check_integer_no_defect;
      solve [simpl; lia | reflexivity].
  - vm_compute. reflexivity.
  - split; vm_compute; reflexivity.
  - vm_compute. reflexivity.
  - reflexivity.
  - vm_compute. reflexivity.
  - vm_compute. reflexivity.
Qed.

(** C7. [encode] throws [InvalidLength] exactly on the inputs that are not
    64 bytes long, and returns DER bytes exactly on those that are. *)
Theorem encode_InvalidLength (signature : Buffer) :
  (DERSignature.encode signature = Throw InvalidLength
   <-> length signature <> 64)
  /\ ((exists der, DERSignature.encode signature = Ok der)
      <-> length signature = 64).
Proof.
  unfold DERSignature.encode.
  destruct (Nat.eqb_spec (length signature) 64) as [E|E]; split; split;
    try congruence; try (intros [der H]; congruence).
  intros _. eexists. reflexivity.
Qed.

(** 63 and 65 bytes are refused, 64 bytes are not. *)
Lemma encode_InvalidLength_witness :
  DERSignature.encode (alloc 63) = Throw InvalidLength
  /\ DERSignature.encode (alloc 65) = Throw InvalidLength
  /\ exists der, DERSignature.encode (alloc 64) = Ok der.
Proof.
  split; [|split].
  - apply (proj1 (encode_InvalidLength (alloc 63))). simpl. lia.
  - apply (proj1 (encode_InvalidLength (alloc 65))). simpl. lia.
  - apply (proj2 (encode_InvalidLength (alloc 64))). reflexivity.
Defined.

(** ** The key pair *)

Section KeyPair.
Context {world : Type} (lib : ecc.t world).

Lemma new_unfold (privKey : Buffer) (w : world) :
  SECP256K1.new lib privKey w
  = match ecc.pointFromScalar lib privKey true w with
    | (ecc.Returned (Some Q), w') =>
        (Ok {| SECP256K1.privKey := privKey; SECP256K1.pubKey := Q |}, w')
    | (ecc.Returned None, w') => (Throw InvalidPrivateKey, w')
    | (ecc.Threw msg, w') => (Throw (ExternalError msg), w')
    end.
Proof.
  unfold SECP256K1.new, bind, external.
  destruct (ecc.pointFromScalar lib privKey true w) as [[[Q|]|msg] w'];
    reflexivity.
Qed.

Lemma sign_unfold (this : SECP256K1.t) (hash : Buffer) (w : world) :
  SECP256K1.sign lib this hash w
  = match ecc.sign lib hash (SECP256K1.privKey this) w with
    | (ecc.Returned signature, w') => (DERSignature.encode signature, w')
    | (ecc.Threw msg, w') => (Throw (ExternalError msg), w')
    end.
Proof.
  unfold SECP256K1.sign, bind, external, lift.
  destruct (ecc.sign lib hash (SECP256K1.privKey this) w) as [[sig|msg] w'];
    reflexivity.
Qed.

Lemma verify_unfold (this : SECP256K1.t) (hash der : Buffer) (w : world) :
  SECP256K1.verify lib this hash der w
  = match DERSignature.decode der with
    | Ok signature =>
        external (ecc.verify lib hash (SECP256K1.pubKey this) signature) w
    | Throw e => (Throw e, w)
    end.
Proof.
  unfold SECP256K1.verify, bind, lift.
  destruct (DERSignature.decode der); reflexivity.
Qed.

(** C4. [verify] resolves with [true] only when [decode] returned a
    compact signature and the curve library's [verify] returned [true]
    for it under the cached public key; when [decode] throws, [verify]
    rejects with that very error, without calling the library. *)
Theorem verify_fails_closed
    (this : SECP256K1.t) (hash der : Buffer) (w : world) :
  (forall w',
      SECP256K1.verify lib this hash der w = (Ok true, w') <->
      exists signature,
        DERSignature.decode der = Ok signature
        /\ ecc.verify lib hash (SECP256K1.pubKey this) signature w
           = (ecc.Returned true, w'))
  /\ (forall e,
      DERSignature.decode der = Throw e ->
      SECP256K1.verify lib this hash der w = (Throw e, w)).
Proof.
  rewrite verify_unfold. split.
  - intros w'. destruct (DERSignature.decode der) as [signature|e].
    + unfold external.
      destruct (ecc.verify lib hash (SECP256K1.pubKey this) signature w)
        as [[b|msg] w1] eqn:Ev; split.
      * intros E. injection E as -> ->. now exists signature.
      * intros (sig' & E & Hv). injection E as <-.
        rewrite Ev in Hv. now injection Hv as -> ->.
      * discriminate.
      * intros (sig' & E & Hv). injection E as <-.
        rewrite Ev in Hv. discriminate.
    + split; [discriminate|]. intros (sig' & E & _). discriminate.
  - intros e ->. reflexivity.
Qed.

(** C6. With a deterministic signer, [sign] is deterministic: key pairs
    holding the same private key resolve (or reject) alike for the same
    hash, whatever the world each call runs in; and [sign] is the
    library's [sign] on the hash and the private key followed by
    [DERSignature.encode]. *)
Theorem sign_deterministic
    (this1 this2 : SECP256K1.t) (hash : Buffer) (w1 w2 : world) :
  deterministic_signer lib ->
  SECP256K1.privKey this1 = SECP256K1.privKey this2 ->
  fst (SECP256K1.sign lib this1 hash w1)
  = fst (SECP256K1.sign lib this2 hash w2)
  /\ SECP256K1.sign lib this1 hash w1
     = match ecc.sign lib hash (SECP256K1.privKey this1) w1 with
       | (ecc.Returned signature, w') => (DERSignature.encode signature, w')
       | (ecc.Threw msg, w') => (Throw (ExternalError msg), w')
       end.
Proof.
  intros Hdet Hkey. split; [|apply sign_unfold].
  rewrite !sign_unfold, <- Hkey.
  specialize (Hdet hash (SECP256K1.privKey this1) w1 w2).
  destruct (ecc.sign lib hash (SECP256K1.privKey this1) w1) as [o1 w1'].
  destruct (ecc.sign lib hash (SECP256K1.privKey this1) w2) as [o2 w2'].
  simpl in Hdet. subst o2. now destruct o1.
Qed.

Lemma getEllipticPairFromPrivateKey_unfold (buffer : Buffer) (w : world) :
  getEllipticPairFromPrivateKey lib buffer w
  = match SECP256K1.new lib buffer w with
    | (Ok this, w') => (Ok (SECP256K1.as_EllipticPair lib this), w')
    | (Throw e, w') => (Throw e, w')
    end.
Proof. reflexivity. Qed.

(** C8. Construction throws [InvalidPrivateKey] exactly when the library's
    [pointFromScalar] returns [null] for the scalar, both in the
    constructor and through [getEllipticPairFromPrivateKey]; the
    constructor returns an object exactly when the library returns a
    point, and the object then holds the scalar and that point, derived
    with the compressed flag set during construction. *)
Theorem new_InvalidPrivateKey (privKey : Buffer) (w w' : world) :
  (SECP256K1.new lib privKey w = (Throw InvalidPrivateKey, w') <->
   ecc.pointFromScalar lib privKey true w = (ecc.Returned None, w'))
  /\ (getEllipticPairFromPrivateKey lib privKey w
      = (Throw InvalidPrivateKey, w') <->
      ecc.pointFromScalar lib privKey true w = (ecc.Returned None, w'))
  /\ (forall this,
      SECP256K1.new lib privKey w = (Ok this, w') <->
      exists Q,
        ecc.pointFromScalar lib privKey true w = (ecc.Returned (Some Q), w')
        /\ this = {| SECP256K1.privKey := privKey; SECP256K1.pubKey := Q |}).
Proof.
  rewrite getEllipticPairFromPrivateKey_unfold, new_unfold.
  destruct (ecc.pointFromScalar lib privKey true w) as [[[Q|]|msg] w1];
    (split; [|split]); try intros this; split;
    try discriminate;
    try (intros E; injection E as <-; reflexivity);
    try (intros (Q' & E & _); discriminate).
  - intros E. injection E as <- <-. now exists Q.
  - intros (Q' & E & ->). now injection E as <- <-.
Qed.

Lemma getEllipticPairFromPrivateKey_Ok
    (buffer : Buffer) (w w' : world) (pair : EllipticPair.t world) :
  getEllipticPairFromPrivateKey lib buffer w = (Ok pair, w') <->
  exists Q,
    ecc.pointFromScalar lib buffer true w = (ecc.Returned (Some Q), w')
    /\ pair = SECP256K1.as_EllipticPair lib
                {| SECP256K1.privKey := buffer; SECP256K1.pubKey := Q |}.
Proof.
  rewrite getEllipticPairFromPrivateKey_unfold, new_unfold.
  destruct (ecc.pointFromScalar lib buffer true w) as [[[Q|]|msg] w1];
    split; try discriminate; try (intros (Q' & E & _); discriminate).
  - intros E. injection E as <- <-. now exists Q.
  - intros (Q' & E & ->). now injection E as <- <-.
Qed.

Lemma run_answers (this : SECP256K1.t) (calls : list call) (w : world) :
  Forall2 (answers (SECP256K1.pubKey this) (SECP256K1.privKey this))
    calls (fst (run (SECP256K1.as_EllipticPair lib this) calls w)).
Proof.
  revert w. induction calls as [|c calls IH]; intros w; simpl.
  - constructor.
  - destruct (invoke (SECP256K1.as_EllipticPair lib this) c w)
      as [o w'] eqn:Ec.
    specialize (IH w').
    destruct (run (SECP256K1.as_EllipticPair lib this) calls w')
      as [os w''].
    simpl in *. constructor; [|exact IH].
    destruct c; simpl; trivial;
      unfold invoke, settle, bind in Ec; simpl in Ec;
      now injection Ec as <- _.
Qed.

(** C9. On a key pair that construction returned, [publicKey()] always
    resolves with the point the library derived during construction,
    and [privateKey()] with the buffer given to construction; neither
    can reject, neither touches the world (no call into the library, so
    nothing is computed again), and this holds for every such call in
    any sequence of operations on the key pair. *)
Theorem keys_fixed_at_construction
    (buffer : Buffer) (w0 w1 : world) (pair : EllipticPair.t world) :
  getEllipticPairFromPrivateKey lib buffer w0 = (Ok pair, w1) ->
  exists Q,
    ecc.pointFromScalar lib buffer true w0 = (ecc.Returned (Some Q), w1)
    /\ (forall w, EllipticPair.publicKey pair w = (Ok Q, w))
    /\ (forall w, EllipticPair.privateKey pair w = (Ok buffer, w))
    /\ (forall calls w,
           Forall2 (answers Q buffer) calls (fst (run pair calls w))).
Proof.
  intros H. apply getEllipticPairFromPrivateKey_Ok in H as (Q & HQ & ->).
  exists Q. repeat split; try assumption.
  intros calls w.
  apply (run_answers
           {| SECP256K1.privKey := buffer; SECP256K1.pubKey := Q |}).
Qed.

(** C10. Construction checks no length: whenever the library derives a
    point for a buffer, of whatever length,
    [getEllipticPairFromPrivateKey] returns a key pair without throwing
    and its [privateKey()] resolves with exactly that buffer. *)
Theorem getEllipticPairFromPrivateKey_any_length
    (buffer Q : Buffer) (w w' : world) :
  ecc.pointFromScalar lib buffer true w = (ecc.Returned (Some Q), w') ->
  exists pair,
    getEllipticPairFromPrivateKey lib buffer w = (Ok pair, w')
    /\ forall w'', EllipticPair.privateKey pair w'' = (Ok buffer, w'').
Proof.
  intros HQ.
  exists (SECP256K1.as_EllipticPair lib
            {| SECP256K1.privKey := buffer; SECP256K1.pubKey := Q |}).
  split; [|reflexivity].
  apply getEllipticPairFromPrivateKey_Ok. now exists Q.
Qed.
End KeyPair.

(** ** The key pair on the stand-in library *)

Example mock_sign :
  SECP256K1.sign mock.lib mock.this mock.hash 0 = (Ok mock.der, 1).
Proof. reflexivity. Qed.

Example mock_verify :
  SECP256K1.verify mock.lib mock.this mock.hash mock.der 1 = (Ok true, 2).
Proof. vm_compute. reflexivity. Qed.

Lemma mock_deterministic : deterministic_signer mock.lib.
Proof. intros hash d w1 w2. reflexivity. Defined.

(** A buffer that is no DER sequence is rejected with the decoder's
    error; the signature of [mock.hash] under [mock.key] is decoded and
    checked by the library. *)
Lemma verify_fails_closed_witness :
  SECP256K1.verify mock.lib mock.this mock.hash [x31; x00] 0
  = (Throw (MalformedSignature ExpectedSequence), 0)
  /\ SECP256K1.verify mock.lib mock.this mock.hash mock.der 1 = (Ok true, 2).
Proof.
  split.
  - apply (proj2 (verify_fails_closed mock.lib mock.this mock.hash
                    [x31; x00] 0)).
    reflexivity.
  - apply (proj1 (verify_fails_closed mock.lib mock.this mock.hash
                    mock.der 1)).
    exists (mock.hash ++ mock.key). split; vm_compute; reflexivity.
Defined.

Lemma sign_deterministic_witness :
  fst (SECP256K1.sign mock.lib mock.this mock.hash 0)
  = fst (SECP256K1.sign mock.lib mock.this mock.hash 5)
  /\ SECP256K1.sign mock.lib mock.this mock.hash 0
     = match ecc.sign mock.lib mock.hash (SECP256K1.privKey mock.this) 0 with
       | (ecc.Returned signature, w') => (DERSignature.encode signature, w')
       | (ecc.Threw msg, w') => (Throw (ExternalError msg), w')
       end.
Proof.
  apply (@sign_deterministic nat mock.lib mock.this mock.this mock.hash 0 5).
  - exact mock_deterministic.
  - reflexivity.
Defined.

(** The all-zero scalar has no point; [mock.key] has one. *)
Lemma new_InvalidPrivateKey_witness :
  SECP256K1.new mock.lib (alloc 32) 0 = (Throw InvalidPrivateKey, 1)
  /\ SECP256K1.new mock.lib mock.key 0 = (Ok mock.this, 1).
Proof.
  split.
  - apply (proj1 (new_InvalidPrivateKey mock.lib (alloc 32) 0 1)).
    reflexivity.
  - apply (proj2 (proj2 (new_InvalidPrivateKey mock.lib mock.key 0 1))).
    exists (x02 :: mock.key). split; reflexivity.
Defined.

Lemma keys_fixed_at_construction_witness :
  exists Q,
    ecc.pointFromScalar mock.lib mock.key true 0 = (ecc.Returned (Some Q), 1)
    /\ (forall w,
          EllipticPair.publicKey
            (SECP256K1.as_EllipticPair mock.lib mock.this) w = (Ok Q, w))
    /\ (forall w,
          EllipticPair.privateKey
            (SECP256K1.as_EllipticPair mock.lib mock.this) w
          = (Ok mock.key, w))
    /\ (forall calls w,
          Forall2 (answers Q mock.key) calls
            (fst (run (SECP256K1.as_EllipticPair mock.lib mock.this) calls w))).
Proof.
  apply (@keys_fixed_at_construction nat mock.lib mock.key 0 1
           (SECP256K1.as_EllipticPair mock.lib mock.this)).
  reflexivity.
Defined.

(** A 3-byte private key. *)
Lemma getEllipticPairFromPrivateKey_any_length_witness :
  exists pair,
    getEllipticPairFromPrivateKey mock.lib [x01; x02; x03] 0 = (Ok pair, 1)
    /\ forall w'', EllipticPair.privateKey pair w'' = (Ok [x01; x02; x03], w'').
Proof.
  apply (@getEllipticPairFromPrivateKey_any_length nat mock.lib
           [x01; x02; x03] [x02; x01; x02; x03] 0 1).
  reflexivity.
Defined.

(** ** Further properties of the key pair *)

Lemma decode_of_encode (signature der : Buffer) :
  DERSignature.encode signature = Ok der ->
  DERSignature.decode der = Ok signature.
Proof.
  unfold DERSignature.encode.
  destruct (Nat.eqb_spec (length signature) 64) as [Hlen|]; [|discriminate].
  intros E. injection E as <-.
  assert (Hr : length (firstn 32 signature) = 32)
    by (rewrite length_firstn; lia).
  assert (Hs : length (skipn 32 signature) = 32)
    by (rewrite length_skipn; lia).
  apply decode_Ok.
  rewrite (@decode_checked_strict _
             (DERSignature.toDER (firstn 32 signature))
             (DERSignature.toDER (skipn 32 signature))).
  - rewrite (scalar32_der_integer_of Hr (toDER_der_integer_of _)).
    rewrite (scalar32_der_integer_of Hs (toDER_der_integer_of _)).
    now rewrite firstn_skipn.
  - split; [reflexivity|]. split.
    + apply der_integer_of_no_defect with (firstn 32 signature);
        [lia | apply toDER_der_integer_of].
    + apply der_integer_of_no_defect with (skipn 32 signature);
        [lia | apply toDER_der_integer_of].
Qed.

Section KeyPairMore.
Context {world : Type} (lib : ecc.t world).

(** X1. Every way [verify] can settle. It resolves with [false] exactly
    when [decode] returned a compact signature and the library's [verify]
    returned [false] for it; it rejects exactly when [decode] threw (with
    that error, the world untouched) or the library threw (with the
    library's error). An undecodable signature is a rejection, never
    [false]. *)
Theorem verify_outcomes (this : SECP256K1.t) (hash der : Buffer) (w : world) :
  (forall w',
      SECP256K1.verify lib this hash der w = (Ok false, w') <->
      exists signature,
        DERSignature.decode der = Ok signature
        /\ ecc.verify lib hash (SECP256K1.pubKey this) signature w
           = (ecc.Returned false, w'))
  /\ (forall e w',
      SECP256K1.verify lib this hash der w = (Throw e, w') <->
      (DERSignature.decode der = Throw e /\ w' = w)
      \/ exists signature msg,
           DERSignature.decode der = Ok signature
           /\ ecc.verify lib hash (SECP256K1.pubKey this) signature w
              = (ecc.Threw msg, w')
           /\ e = ExternalError msg).
Proof.
  rewrite verify_unfold.
  destruct (DERSignature.decode der) as [signature|e0].
  - unfold external.
    destruct (ecc.verify lib hash (SECP256K1.pubKey this) signature w)
      as [[b|msg] w1] eqn:Ev.
    + split; [intros w' | intros e w']; split.
      * intros E. injection E as -> <-. now exists signature.
      * intros (sig' & E & Hv). injection E as <-.
        rewrite Ev in Hv. now injection Hv as -> ->.
      * discriminate.
      * intros [[E _] | (sig' & msg & E & Hv & _)]; [discriminate|].
        injection E as <-. rewrite Ev in Hv. discriminate.
    + split; [intros w' | intros e w']; split.
      * discriminate.
      * intros (sig' & E & Hv). injection E as <-.
        rewrite Ev in Hv. discriminate.
      * intros E. injection E as <- <-. right. now exists signature, msg.
      * intros [[E _] | (sig' & msg' & E & Hv & ->)]; [discriminate|].
        injection E as <-. rewrite Ev in Hv. now injection Hv as -> ->.
  - split; [intros w' | intros e w']; split.
    + discriminate.
    + intros (sig' & E & _). discriminate.
    + intros E. injection E as <- <-. now left.
    + intros [[E ->] | (sig' & msg & E & _)]; [|discriminate].
      now injection E as <-.
Qed.

(** X2. Every way [sign] can settle. It resolves with DER bytes exactly
    when the library returned a compact signature that [encode] turned
    into those bytes; it rejects exactly when the library threw (with the
    library's error) or [encode] threw on what the library returned. *)
Theorem sign_outcomes (this : SECP256K1.t) (hash : Buffer) (w : world) :
  (forall der w',
      SECP256K1.sign lib this hash w = (Ok der, w') <->
      exists signature,
        ecc.sign lib hash (SECP256K1.privKey this) w
        = (ecc.Returned signature, w')
        /\ DERSignature.encode signature = Ok der)
  /\ (forall e w',
      SECP256K1.sign lib this hash w = (Throw e, w') <->
      (exists msg,
          ecc.sign lib hash (SECP256K1.privKey this) w = (ecc.Threw msg, w')
          /\ e = ExternalError msg)
      \/ exists signature,
           ecc.sign lib hash (SECP256K1.privKey this) w
           = (ecc.Returned signature, w')
           /\ DERSignature.encode signature = Throw e).
Proof.
  rewrite sign_unfold.
  destruct (ecc.sign lib hash (SECP256K1.privKey this) w)
    as [[signature|msg] w1].
  - split; [intros der w' | intros e w']; split.
    + intros E. injection E as E <-. now exists signature.
    + intros (sig' & E & He). injection E as <- <-. now rewrite He.
    + intros E. injection E as E <-. right. now exists signature.
    + intros [(msg & E & _) | (sig' & E & He)]; [discriminate|].
      injection E as <- <-. now rewrite He.
  - split; [intros der w' | intros e w']; split.
    + discriminate.
    + intros (sig' & E & _). discriminate.
    + intros E. injection E as <- <-. left. now exists msg.
    + intros [(msg' & E & ->) | (sig' & E & _)]; [|discriminate].
      now injection E as <- <-.
Qed.

(** X3. [verify] undoes what [sign] did: when [sign] resolves with DER
    bytes, the library's signer returned some compact signature, and
    [verify] on those bytes, on any key pair, any hash and in any world,
    is the library's [verify] on exactly that compact signature. *)
Theorem verify_after_sign
    (this : SECP256K1.t) (hash der : Buffer) (w w' : world) :
  SECP256K1.sign lib this hash w = (Ok der, w') ->
  exists signature,
    ecc.sign lib hash (SECP256K1.privKey this) w
    = (ecc.Returned signature, w')
    /\ forall (that : SECP256K1.t) (hash' : Buffer) (w2 : world),
         SECP256K1.verify lib that hash' der w2
         = external
             (ecc.verify lib hash' (SECP256K1.pubKey that) signature) w2.
Proof.
  rewrite sign_unfold.
  destruct (ecc.sign lib hash (SECP256K1.privKey this) w)
    as [[signature|msg] w1]; [|discriminate].
  intros E. injection E as E <-.
  exists signature. split; [reflexivity|].
  intros that hash' w2.
  now rewrite verify_unfold, (decode_of_encode _ E).
Qed.

(** X4. Every way construction can fail, and its one call outside. The
    world after [getEllipticPairFromPrivateKey] is the world the single
    call [pointFromScalar(buffer, true)] leaves; it throws only
    [InvalidPrivateKey], when that call returned [null], or the library's
    own error, when that call threw. *)
Theorem getEllipticPairFromPrivateKey_failures (buffer : Buffer) (w : world) :
  snd (getEllipticPairFromPrivateKey lib buffer w)
  = snd (ecc.pointFromScalar lib buffer true w)
  /\ (forall e w',
      getEllipticPairFromPrivateKey lib buffer w = (Throw e, w') <->
      (e = InvalidPrivateKey
       /\ ecc.pointFromScalar lib buffer true w = (ecc.Returned None, w'))
      \/ exists msg,
           e = ExternalError msg
           /\ ecc.pointFromScalar lib buffer true w = (ecc.Threw msg, w')).
Proof.
  rewrite getEllipticPairFromPrivateKey_unfold, new_unfold.
  destruct (ecc.pointFromScalar lib buffer true w) as [[[Q|]|msg] w1];
    (split; [reflexivity|]); intros e w'; split.
  - discriminate.
  - intros [[_ E] | (msg & _ & E)]; discriminate.
  - intros E. injection E as <- <-. now left.
  - intros [[-> E] | (msg & _ & E)]; [|discriminate].
    now injection E as <-.
  - intros E. injection E as <- <-. right. now exists msg.
  - intros [[_ E] | (msg' & -> & E)]; [discriminate|].
    now injection E as <- <-.
Qed.
(** X5. Key derivation is deterministic when the library's is: with a
    [pointFromScalar] whose result does not depend on the world,
    constructing from the same bytes twice settles alike (the same error,
    or the same key pair), and two key pairs so obtained resolve
    [publicKey()] with the same point. *)
Theorem publicKey_deterministic (buffer : Buffer) (w1 w2 : world) :
  deterministic_derivation lib ->
  fst (getEllipticPairFromPrivateKey lib buffer w1)
  = fst (getEllipticPairFromPrivateKey lib buffer w2)
  /\ forall pair1 pair2 w1' w2',
       getEllipticPairFromPrivateKey lib buffer w1 = (Ok pair1, w1') ->
       getEllipticPairFromPrivateKey lib buffer w2 = (Ok pair2, w2') ->
       forall w, EllipticPair.publicKey pair1 w = EllipticPair.publicKey pair2 w.
Proof.
  intros Hdet.
  assert (H : fst (getEllipticPairFromPrivateKey lib buffer w1)
              = fst (getEllipticPairFromPrivateKey lib buffer w2)).
  { rewrite !getEllipticPairFromPrivateKey_unfold, !new_unfold.
    specialize (Hdet buffer true w1 w2).
    destruct (ecc.pointFromScalar lib buffer true w1) as [o1 w1'].
    destruct (ecc.pointFromScalar lib buffer true w2) as [o2 w2'].
    simpl in Hdet. subst o2. now destruct o1 as [[Q|]|msg]. }
  split; [exact H|].
  intros pair1 pair2 w1' w2' E1 E2 w.
  rewrite E1, E2 in H. simpl in H. now injection H as ->.
Qed.

Lemma fst_settle {A : Type} (f : A -> value) (c : M world A) (w : world) :
  fst (settle f c w)
  = match fst (c w) with
    | Ok a => Ok (f a)
    | Throw e => Throw e
    end.
Proof.
  unfold settle, bind, ret. now destruct (c w) as [[a|e] w'].
Qed.

Lemma fst_sign (this : SECP256K1.t) (hash : Buffer) (w : world) :
  fst (SECP256K1.sign lib this hash w)
  = match fst (ecc.sign lib hash (SECP256K1.privKey this) w) with
    | ecc.Returned signature => DERSignature.encode signature
    | ecc.Threw msg => Throw (ExternalError msg)
    end.
Proof.
  rewrite sign_unfold.
  now destruct (ecc.sign lib hash (SECP256K1.privKey this) w) as [[sig|msg] w'].
Qed.

Lemma fst_verify (this : SECP256K1.t) (hash der : Buffer) (w : world) :
  fst (SECP256K1.verify lib this hash der w)
  = match DERSignature.decode der with
    | Ok signature =>
        match fst (ecc.verify lib hash (SECP256K1.pubKey this) signature w) with
        | ecc.Returned b => Ok b
        | ecc.Threw msg => Throw (ExternalError msg)
        end
    | Throw e => Throw e
    end.
Proof.
  rewrite verify_unfold.
  destruct (DERSignature.decode der) as [signature|e]; [|reflexivity].
  unfold external.
  now destruct (ecc.verify lib hash (SECP256K1.pubKey this) signature w)
    as [[b|msg] w'].
Qed.

(** What a call on the object settles with, whatever the world, when the
    library's signer and verifier are deterministic. *)
Lemma invoke_world_independent (this : SECP256K1.t) (c : call) (w1 w2 : world) :
  deterministic_signer lib -> deterministic_verifier lib ->
  fst (invoke (SECP256K1.as_EllipticPair lib this) c w1)
  = fst (invoke (SECP256K1.as_EllipticPair lib this) c w2).
Proof.
  intros Hs Hv. destruct c as [| |hash|hash der]; unfold invoke;
    rewrite !fst_settle; unfold SECP256K1.as_EllipticPair;
    cbn [EllipticPair.publicKey EllipticPair.privateKey
         EllipticPair.sign EllipticPair.verify];
    try reflexivity.
  - now rewrite !fst_sign, (Hs hash (SECP256K1.privKey this) w1 w2).
  - rewrite !fst_verify.
    destruct (DERSignature.decode der) as [signature|e]; [|reflexivity].
    now rewrite (Hv hash (SECP256K1.pubKey this) signature w1 w2).
Qed.

(** X6. The key pair keeps no state between calls: with a library whose
    signer and verifier are deterministic, what each call of a sequence
    of operations settles with is what that call settles with on its
    own, in any world; so the operations can be interleaved and reordered
    at will. *)
Theorem run_history_independent
    (buffer : Buffer) (w0 w1 : world) (pair : EllipticPair.t world)
    (calls : list call) (w w' : world) :
  deterministic_signer lib -> deterministic_verifier lib ->
  getEllipticPairFromPrivateKey lib buffer w0 = (Ok pair, w1) ->
  fst (run pair calls w) = map (fun c => fst (invoke pair c w')) calls.
Proof.
  intros Hs Hv H.
  apply getEllipticPairFromPrivateKey_Ok in H as (Q & _ & ->).
  set (this := {| SECP256K1.privKey := buffer; SECP256K1.pubKey := Q |}).
  set (pair := SECP256K1.as_EllipticPair lib this).
  revert w. induction calls as [|c calls IH]; intros w; [reflexivity|].
  cbn [run map]. rewrite <- (IH (snd (invoke pair c w))).
  unfold pair at 3.
  rewrite <- (invoke_world_independent this c w w' Hs Hv).
  fold pair. destruct (invoke pair c w) as [o wc]. cbn [fst snd].
  now destruct (run pair calls wc).
Qed.
(** X7. End to end: on a consistent library, a key pair that construction
    returned verifies what it signs. If [sign(hash)] resolves with DER
    bytes, then [verify(hash, thoseBytes)] on the same key pair resolves
    with [true], whenever it is called. *)
Theorem verify_accepts_own_signature
    (buffer hash der : Buffer) (pair : EllipticPair.t world)
    (w0 w0' w1 w1' w2 : world) :
  consistent_library lib ->
  getEllipticPairFromPrivateKey lib buffer w0 = (Ok pair, w0') ->
  EllipticPair.sign pair hash w1 = (Ok der, w1') ->
  exists w2', EllipticPair.verify pair hash der w2 = (Ok true, w2').
Proof.
  intros Hlib Hpair Hsign.
  apply getEllipticPairFromPrivateKey_Ok in Hpair as (Q & HQ & ->).
  cbn [EllipticPair.sign EllipticPair.verify SECP256K1.as_EllipticPair]
    in Hsign |- *.
  rewrite sign_unfold in Hsign. cbn [SECP256K1.privKey] in Hsign.
  destruct (ecc.sign lib hash buffer w1) as [[signature|msg] w] eqn:Es;
    [|discriminate].
  injection Hsign as Henc <-.
  destruct (Hlib buffer Q hash signature w0 w0' w1 w w2 HQ Es) as [w2' Hv].
  exists w2'.
  rewrite verify_unfold, (decode_of_encode _ Henc).
  unfold external. cbn [SECP256K1.pubKey]. now rewrite Hv.
Qed.
End KeyPairMore.

(** ** The further properties on the stand-in library *)

Lemma mock_deterministic_verifier : deterministic_verifier mock.lib.
Proof. intros hash Q signature w1 w2. reflexivity. Defined.

Lemma mock_deterministic_derivation : deterministic_derivation mock.lib.
Proof. intros d compressed w1 w2. reflexivity. Defined.

(** Somebody else's signature resolves with [false]; a buffer that is no
    DER sequence rejects. *)
Lemma verify_outcomes_witness :
  SECP256K1.verify mock.lib mock.this mock.hash high_s_der 0 = (Ok false, 1)
  /\ SECP256K1.verify mock.lib mock.this mock.hash [x31; x00] 3
     = (Throw (MalformedSignature ExpectedSequence), 3).
Proof.
  split.
  - apply (proj1 (@verify_outcomes nat mock.lib mock.this mock.hash
                    high_s_der 0)).
    exists high_s_signature. split; vm_compute; reflexivity.
  - apply (proj2 (@verify_outcomes nat mock.lib mock.this mock.hash
                    [x31; x00] 3)).
    left. split; reflexivity.
Defined.

Lemma sign_outcomes_witness :
  SECP256K1.sign mock.lib mock.this mock.hash 0 = (Ok mock.der, 1).
Proof.
  apply (proj1 (@sign_outcomes nat mock.lib mock.this mock.hash 0)).
  exists (mock.hash ++ mock.key). split; reflexivity.
Defined.

Lemma verify_after_sign_witness :
  exists signature,
    ecc.sign mock.lib mock.hash (SECP256K1.privKey mock.this) 0
    = (ecc.Returned signature, 1)
    /\ forall (that : SECP256K1.t) (hash' : Buffer) (w2 : nat),
         SECP256K1.verify mock.lib that hash' mock.der w2
         = external
             (ecc.verify mock.lib hash' (SECP256K1.pubKey that) signature) w2.
Proof.
  apply (@verify_after_sign nat mock.lib mock.this mock.hash mock.der 0 1).
  reflexivity.
Defined.

(** The all-zero scalar: one call outside, and [InvalidPrivateKey]. *)
Lemma getEllipticPairFromPrivateKey_failures_witness :
  snd (getEllipticPairFromPrivateKey mock.lib (alloc 32) 0) = 1
  /\ getEllipticPairFromPrivateKey mock.lib (alloc 32) 0
     = (Throw InvalidPrivateKey, 1).
Proof.
  split.
  - apply (proj1 (@getEllipticPairFromPrivateKey_failures nat mock.lib
                    (alloc 32) 0)).
  - apply (proj2 (@getEllipticPairFromPrivateKey_failures nat mock.lib
                    (alloc 32) 0)).
    left. split; reflexivity.
Defined.

Lemma publicKey_deterministic_witness :
  fst (getEllipticPairFromPrivateKey mock.lib mock.key 0)
  = fst (getEllipticPairFromPrivateKey mock.lib mock.key 7)
  /\ forall pair1 pair2 w1' w2',
       getEllipticPairFromPrivateKey mock.lib mock.key 0 = (Ok pair1, w1') ->
       getEllipticPairFromPrivateKey mock.lib mock.key 7 = (Ok pair2, w2') ->
       forall w, EllipticPair.publicKey pair1 w = EllipticPair.publicKey pair2 w.
Proof.
  apply (@publicKey_deterministic nat mock.lib mock.key 0 7).
  exact mock_deterministic_derivation.
Defined.

(** Sign, read the public key, verify: each result is that of the call
    made alone in world 0. *)
Lemma run_history_independent_witness :
  fst (run (SECP256K1.as_EllipticPair mock.lib mock.this)
         [CallSign mock.hash; CallPublicKey; CallVerify mock.hash mock.der] 4)
  = map (fun c =>
           fst (invoke (SECP256K1.as_EllipticPair mock.lib mock.this) c 0))
      [CallSign mock.hash; CallPublicKey; CallVerify mock.hash mock.der].
Proof.
  apply (@run_history_independent nat mock.lib mock.key 0 1
           (SECP256K1.as_EllipticPair mock.lib mock.this)
           [CallSign mock.hash; CallPublicKey; CallVerify mock.hash mock.der]
           4 0).
  - exact mock_deterministic.
  - exact mock_deterministic_verifier.
  - reflexivity.
Defined.

Lemma mock_same_refl (b : Buffer) : mock.same b b = true.
Proof.
  unfold mock.same. now destruct (list_eq_dec Byte.byte_eq_dec b b).
Defined.

Lemma mock_consistent : consistent_library mock.lib.
Proof.
  intros d Q hash signature w0 w0' w1 w1' w2 HQ Hs.
  exists (S w2). cbn in HQ, Hs |- *. unfold mock.pointFromScalar in HQ.
  unfold mock.sign in Hs. unfold mock.verify.
  destruct (forallb is_zero d); [discriminate|].
  injection HQ as <- _. injection Hs as <- _.
  cbn [tl]. now rewrite mock_same_refl.
Defined.

Lemma verify_accepts_own_signature_witness :
  exists w2',
    EllipticPair.verify (SECP256K1.as_EllipticPair mock.lib mock.this)
      mock.hash mock.der 9
    = (Ok true, w2').
Proof.
  apply (@verify_accepts_own_signature nat mock.lib mock.key mock.hash
           mock.der (SECP256K1.as_EllipticPair mock.lib mock.this)
           0 1 5 6 9).
  - exact mock_consistent.
  - reflexivity.
  - reflexivity.
Defined.
